(** * poland-in-numbers: the application bootstrap and its test configuration

    The repository's executable code is the entry script

<<
      const app = document.querySelector<HTMLDivElement>('#app');
      if (app) { app.innerHTML = `...`; }
>>

    and the Vite/Vitest configuration object.  The script talks to the
    browser's document through two platform operations, [querySelector] and
    the [innerHTML] setter.  They are embedded here as functions on a tree
    model of the document, following the DOM and HTML standards for the part
    of their behaviour the script relies on; the script itself is the
    monadic program [main].  The stylesheet import on the script's first line
    is resolved by the bundler and is not part of the modelled behaviour. *)

From Stdlib Require Import String Ascii QArith.
From stdpp Require Import base tactics option list strings gmap.

Local Open Scope string_scope.
Local Open Scope list_scope.
Local Open Scope nat_scope.

(** ** The document tree *)

Module Dom.

(** A node of the tree: character data, a comment, or an element with its
    tag name, its attributes in source order and its child nodes. *)
#[local] Unset Elimination Schemes.
Inductive node : Type :=
| Text (data : string)
| Comment (data : string)
| Element (tagName : string) (attributes : list (string * string))
          (childNodes : list node).
#[local] Set Elimination Schemes.

(** A document is given by the list of its child nodes. *)
Abbreviation document := (list node) (only parsing).

(** A reference to a node: the child indices that lead to it, from the
    document (or from a node) downwards. *)
Abbreviation path := (list nat) (only parsing).

Definition children (n : node) : list node :=
  match n with
  | Element _ _ kids => kids
  | _ => []
  end.

(** [getAttribute]: the value of the first attribute with that name. *)
Fixpoint getAttribute (name : string) (attrs : list (string * string))
  : option string :=
  match attrs with
  | [] => None
  | (k, v) :: rest =>
      if String.eqb k name then Some v else getAttribute name rest
  end.

(** The element's id is the value of its [id] attribute; the empty string is
    no id. *)
Definition element_id (n : node) : option string :=
  match n with
  | Element _ attrs _ =>
      match getAttribute "id" attrs with
      | Some v => if String.eqb v EmptyString then None else Some v
      | None => None
      end
  | _ => None
  end.

(** The node reached from [n] along the relative path [p]. *)
Fixpoint sub_at (p : path) (n : node) : option node :=
  match p with
  | [] => Some n
  | i :: p' =>
      match children n !! i with
      | Some k => sub_at p' k
      | None => None
      end
  end.

(** The node of the document [d] that the reference [p] denotes. *)
Definition node_at (p : path) (d : document) : option node :=
  match p with
  | [] => None
  | i :: p' =>
      match d !! i with
      | Some k => sub_at p' k
      | None => None
      end
  end.

(** Replace the children of the element reached from [n] along [p]. *)
Fixpoint set_children_in (p : path) (new : list node) (n : node) : node :=
  match n with
  | Element tag attrs kids =>
      match p with
      | [] => Element tag attrs new
      | i :: p' => Element tag attrs (alter (set_children_in p' new) i kids)
      end
  | _ => n
  end.

Definition set_children (p : path) (new : list node) (d : document)
  : document :=
  match p with
  | [] => d
  | i :: p' => alter (set_children_in p' new) i d
  end.

(** What a node is by itself: its kind, its data or tag and attributes, and
    how many children it has. *)
Definition shell (n : node) : node * nat :=
  match n with
  | Element tag attrs kids => (Element tag attrs [], length kids)
  | _ => (n, 0)
  end.

(** Tree order (preorder, depth first) on references: an ancestor comes
    before its descendants, an earlier sibling's subtree before a later
    sibling's. *)
Fixpoint tree_order_le (p q : path) : bool :=
  match p, q with
  | [], _ => true
  | _ :: _, [] => false
  | i :: p', j :: q' =>
      if Nat.ltb i j then true
      else if Nat.eqb i j then tree_order_le p' q'
      else false
  end.

(** [is_prefix p q]: [q] denotes the node at [p] or one of its descendants. *)
Fixpoint is_prefix (p q : path) : bool :=
  match p, q with
  | [], _ => true
  | _ :: _, [] => false
  | i :: p', j :: q' => Nat.eqb i j && is_prefix p' q'
  end.

(** *** Tree search, as [querySelector] performs it *)

Section Search.
Variable matches : node -> bool.

Section FirstMatch.
Variable within : node -> option path.

(** The first child, in order, inside whose subtree there is a match. *)
Fixpoint first_match (kids : list node) : option path :=
  match kids with
  | [] => None
  | k :: rest =>
      match within k with
      | Some p => Some (0 :: p)
      | None =>
          match first_match rest with
          | Some (i :: p) => Some (S i :: p)
          | _ => None
          end
      end
  end.
End FirstMatch.

(** The first inclusive descendant of [n], in tree order, that is an
    element accepted by [matches]. *)
Fixpoint search (n : node) : option path :=
  match n with
  | Element _ _ kids =>
      if matches n then Some [] else first_match search kids
  | _ => None
  end.

Definition search_document (d : document) : option path :=
  first_match search d.
End Search.

End Dom.

(** ** The HTML fragment parser and serializer behind [innerHTML]

    The [innerHTML] setter runs the HTML fragment parsing algorithm on the
    assigned string, in the context of the element written to; the getter
    runs the fragment serialization algorithm.  Both are modelled on a
    subset of HTML: text, start tags with double-quoted attributes and end
    tags of the block containers, paragraphs and headings, without character
    references, comments or self-closing syntax.  On that subset the
    functions follow the tokenizer states and the tree construction rules of
    the HTML standard; markup outside it yields [None].

    [parse_fragment] is the algorithm in the context of a div (the tokenizer
    starts in the data state, the tree builder in the "in body" insertion
    mode), which is how the script types its target.  [parse_in_context]
    adds the contexts in which the same markup gives other nodes: elements
    whose content is character data, select, colgroup and frameset, and the
    html element.  The elements of a document are HTML elements; a template
    keeps the parsed nodes in its contents, outside the tree. *)

Module Html.
Import Dom.

Definition code (c : ascii) : nat := nat_of_ascii c.

Definition is_upper (c : ascii) : bool :=
  Nat.leb 65 (code c) && Nat.leb (code c) 90.
Definition is_lower (c : ascii) : bool :=
  Nat.leb 97 (code c) && Nat.leb (code c) 122.
Definition is_alpha (c : ascii) : bool := is_upper c || is_lower c.
Definition is_digit (c : ascii) : bool :=
  Nat.leb 48 (code c) && Nat.leb (code c) 57.
Definition to_lower (c : ascii) : ascii :=
  if is_upper c then ascii_of_nat (code c + 32) else c.

(** Tab, line feed, form feed and space.  Carriage returns do not reach the
    tokenizer: a template literal holds line feeds only. *)
Definition is_space (c : ascii) : bool :=
  Nat.eqb (code c) 9 || Nat.eqb (code c) 10 || Nat.eqb (code c) 12
  || Nat.eqb (code c) 32.

Definition lt_sign : ascii := "<"%char.
Definition gt_sign : ascii := ">"%char.
Definition slash : ascii := "/"%char.
Definition equals_sign : ascii := "="%char.
Definition ampersand : ascii := "&"%char.
Definition dquote : ascii := "034"%char.
Definition squote : ascii := "039"%char.
Definition newline : ascii := "010"%char.

Definition text_of (rev_chars : list ascii) : string :=
  string_of_list_ascii (rev rev_chars).

(** *** Tokenizer *)

Inductive token : Type :=
| Character (c : ascii)
| StartTag (name : string) (attrs : list (string * string))
| EndTag (name : string).

(** The tag token under construction; its attributes are kept in reverse. *)
Record tag : Type := MkTag {
  closing : bool;
  tag_name : string;
  tag_attrs : list (string * string)
}.

Definition emit_tag (t : tag) : token :=
  if closing t then EndTag (tag_name t)
  else StartTag (tag_name t) (rev (tag_attrs t)).

(** An attribute whose name the tag already has is dropped. *)
Definition add_attribute (t : tag) (name value : string) : tag :=
  match getAttribute name (tag_attrs t) with
  | Some _ => t
  | None => MkTag (closing t) (tag_name t) ((name, value) :: tag_attrs t)
  end.

Inductive tokenizer_state : Type :=
| DataState
| TagOpenState
| EndTagOpenState
| TagNameState (is_end : bool) (name : list ascii)
| BeforeAttributeNameState (t : tag)
| AttributeNameState (t : tag) (name : list ascii)
| BeforeAttributeValueState (t : tag) (name : string)
| AttributeValueDoubleQuotedState (t : tag) (name : string)
                                  (value : list ascii)
| AfterAttributeValueQuotedState (t : tag).

(** One character of input: the next state and the tokens emitted, or
    [None] when the input leaves the modelled subset. *)
Definition tokenizer_step (s : tokenizer_state) (c : ascii)
  : option (tokenizer_state * list token) :=
  if Nat.eqb (code c) 0 || Nat.eqb (code c) 13 || Nat.leb 128 (code c)
  then None else
  match s with
  | DataState =>
      if Ascii.eqb c lt_sign then Some (TagOpenState, [])
      else if Ascii.eqb c ampersand then None
      else Some (DataState, [Character c])
  | TagOpenState =>
      if is_alpha c then Some (TagNameState false [to_lower c], [])
      else if Ascii.eqb c slash then Some (EndTagOpenState, [])
      else None
  | EndTagOpenState =>
      if is_alpha c then Some (TagNameState true [to_lower c], [])
      else None
  | TagNameState is_end name =>
      if is_space c
      then Some (BeforeAttributeNameState (MkTag is_end (text_of name) []), [])
      else if Ascii.eqb c gt_sign
      then Some (DataState, [emit_tag (MkTag is_end (text_of name) [])])
      else if Ascii.eqb c slash then None
      else Some (TagNameState is_end (to_lower c :: name), [])
  | BeforeAttributeNameState t =>
      if is_space c then Some (BeforeAttributeNameState t, [])
      else if Ascii.eqb c gt_sign then Some (DataState, [emit_tag t])
      else if Ascii.eqb c slash || Ascii.eqb c equals_sign then None
      else if Ascii.eqb c dquote || Ascii.eqb c squote || Ascii.eqb c lt_sign
      then None
      else Some (AttributeNameState t [to_lower c], [])
  | AttributeNameState t name =>
      if Ascii.eqb c equals_sign
      then Some (BeforeAttributeValueState t (text_of name), [])
      else if is_space c || Ascii.eqb c slash || Ascii.eqb c gt_sign then None
      else if Ascii.eqb c dquote || Ascii.eqb c squote || Ascii.eqb c lt_sign
      then None
      else Some (AttributeNameState t (to_lower c :: name), [])
  | BeforeAttributeValueState t name =>
      if Ascii.eqb c dquote
      then Some (AttributeValueDoubleQuotedState t name [], [])
      else None
  | AttributeValueDoubleQuotedState t name value =>
      if Ascii.eqb c dquote
      then Some (AfterAttributeValueQuotedState
                   (add_attribute t name (text_of value)), [])
      else if Ascii.eqb c ampersand then None
      else Some (AttributeValueDoubleQuotedState t name (c :: value), [])
  | AfterAttributeValueQuotedState t =>
      if is_space c then Some (BeforeAttributeNameState t, [])
      else if Ascii.eqb c gt_sign then Some (DataState, [emit_tag t])
      else None
  end.

(** Run the tokenizer over the input; the input has to end in the data
    state. *)
Fixpoint tokenize_from (s : tokenizer_state) (input : list ascii)
  : option (list token) :=
  match input with
  | [] => match s with DataState => Some [] | _ => None end
  | c :: rest =>
      match tokenizer_step s c with
      | Some (s', out) =>
          match tokenize_from s' rest with
          | Some toks => Some (out ++ toks)
          | None => None
          end
      | None => None
      end
  end.

Definition tokenize (html : string) : option (list token) :=
  tokenize_from DataState (list_ascii_of_string html).

(** *** Tree construction *)

(** Start tags handled by the rule "close a p element in button scope, then
    insert the element". *)
Definition block_names : list string :=
  ["address"; "article"; "aside"; "blockquote"; "center"; "details";
   "dialog"; "dir"; "div"; "dl"; "fieldset"; "figcaption"; "figure";
   "footer"; "header"; "hgroup"; "main"; "menu"; "nav"; "ol"; "p";
   "search"; "section"; "summary"; "ul"].

Definition heading_names : list string :=
  ["h1"; "h2"; "h3"; "h4"; "h5"; "h6"].

Definition name_in (names : list string) (name : string) : bool :=
  existsb (String.eqb name) names.

Definition is_block (name : string) : bool := name_in block_names name.
Definition is_heading (name : string) : bool := name_in heading_names name.
Definition is_paragraph (name : string) : bool := String.eqb name "p".

(** An element on the stack of open elements, with the children it has
    received so far, last one first. *)
Record open_element : Type := MkOpen {
  open_name : string;
  open_attrs : list (string * string);
  open_kids : list node
}.

(** The stack of open elements, current node first, above the root of the
    fragment, whose children so far are [root_kids], last one first. *)
Record builder : Type := MkBuilder {
  stack : list open_element;
  root_kids : list node
}.

Definition with_kids (e : open_element) (kids : list node) : open_element :=
  MkOpen (open_name e) (open_attrs e) kids.

Definition append_child (n : node) (b : builder) : builder :=
  match stack b with
  | e :: below =>
      MkBuilder (with_kids e (n :: open_kids e) :: below) (root_kids b)
  | [] => MkBuilder [] (n :: root_kids b)
  end.

(** Insert a character: extend the text node that ends the current node's
    children, or start a new one. *)
Definition extend_text (c : ascii) (kids : list node) : list node :=
  match kids with
  | Text s :: before => Text (s +:+ String c EmptyString) :: before
  | _ => Text (String c EmptyString) :: kids
  end.

Definition insert_character (c : ascii) (b : builder) : builder :=
  match stack b with
  | e :: below =>
      MkBuilder (with_kids e (extend_text c (open_kids e)) :: below)
                (root_kids b)
  | [] => MkBuilder [] (extend_text c (root_kids b))
  end.

Definition insert_element (name : string) (attrs : list (string * string))
                          (b : builder) : builder :=
  MkBuilder (MkOpen name attrs [] :: stack b) (root_kids b).

Definition close (e : open_element) : node :=
  Element (open_name e) (open_attrs e) (rev (open_kids e)).

(** Pop the current node off the stack; it becomes the last child of the
    node below it. *)
Definition pop (b : builder) : builder :=
  match stack b with
  | e :: below => append_child (close e) (MkBuilder below (root_kids b))
  | [] => b
  end.

(** Pop until an element whose name satisfies [stop] has been popped. *)
Fixpoint pop_until_n (fuel : nat) (stop : string -> bool) (b : builder)
  : builder :=
  match fuel, stack b with
  | S fuel', e :: _ =>
      if stop (open_name e) then pop b else pop_until_n fuel' stop (pop b)
  | _, _ => b
  end.

Definition pop_until (stop : string -> bool) (b : builder) : builder :=
  pop_until_n (length (stack b)) stop b.

(** Generate implied end tags: of the modelled elements only [p] has one. *)
Fixpoint generate_implied_end_tags_n (fuel : nat) (b : builder) : builder :=
  match fuel, stack b with
  | S fuel', e :: _ =>
      if is_paragraph (open_name e)
      then generate_implied_end_tags_n fuel' (pop b)
      else b
  | _, _ => b
  end.

Definition generate_implied_end_tags (b : builder) : builder :=
  generate_implied_end_tags_n (length (stack b)) b.

(** No modelled element bounds a scope, so an element is in scope when it
    is on the stack. *)
Definition in_scope (target : string -> bool) (b : builder) : bool :=
  existsb (fun e => target (open_name e)) (stack b).

Definition close_p_element (b : builder) : builder :=
  pop_until is_paragraph b.

Definition close_p_if_in_scope (b : builder) : builder :=
  if in_scope is_paragraph b then close_p_element b else b.

Definition current_is_heading (b : builder) : bool :=
  match stack b with
  | e :: _ => is_heading (open_name e)
  | [] => false
  end.

(** The "in body" insertion mode on one token. *)
Definition process_token (t : token) (b : builder) : option builder :=
  match t with
  | Character c => Some (insert_character c b)
  | StartTag name attrs =>
      if is_block name
      then Some (insert_element name attrs (close_p_if_in_scope b))
      else if is_heading name
      then let b1 := close_p_if_in_scope b in
           let b2 := if current_is_heading b1 then pop b1 else b1 in
           Some (insert_element name attrs b2)
      else None
  | EndTag name =>
      if is_paragraph name
      then if in_scope is_paragraph b then Some (close_p_element b)
           else Some (close_p_element (insert_element "p" [] b))
      else if is_block name
      then if in_scope (String.eqb name) b
           then Some (pop_until (String.eqb name) (generate_implied_end_tags b))
           else Some b
      else if is_heading name
      then if in_scope is_heading b
           then Some (pop_until is_heading (generate_implied_end_tags b))
           else Some b
      else None
  end.

Fixpoint process_tokens (toks : list token) (b : builder) : option builder :=
  match toks with
  | [] => Some b
  | t :: rest =>
      match process_token t b with
      | Some b' => process_tokens rest b'
      | None => None
      end
  end.

(** At the end of the input every open element is popped. *)
Fixpoint pop_all_n (fuel : nat) (b : builder) : builder :=
  match fuel, stack b with
  | S fuel', _ :: _ => pop_all_n fuel' (pop b)
  | _, _ => b
  end.

Definition stop_parsing (b : builder) : list node :=
  rev (root_kids (pop_all_n (length (stack b)) b)).

(** The fragment parsing algorithm: the children of the fragment's root. *)
Definition parse_fragment (html : string) : option (list node) :=
  match tokenize html with
  | Some toks =>
      match process_tokens toks (MkBuilder [] []) with
      | Some b => Some (stop_parsing b)
      | None => None
      end
  | None => None
  end.

(** *** Other contexts *)

(** How the context element makes the parser start. *)
Inductive context : Type :=
| InBody
| CharacterData
| InSelect
| SpaceOnly
| BeforeHead
| TemplateContents.

(** Elements whose content the tokenizer reads as character data (the
    RCDATA, RAWTEXT, script data and PLAINTEXT states; scripting is enabled,
    as a script is running). *)
Definition character_data_names : list string :=
  ["title"; "textarea"; "style"; "xmp"; "iframe"; "noembed"; "noframes";
   "noscript"; "script"; "plaintext"].

(** The insertion mode is reset to "in body" for every element the standard
    does not single out; with the modelled markup the table modes and
    "in caption" hand every token over to the "in body" rules as well. *)
Definition context_of (tagName : string) : context :=
  if String.eqb tagName "template" then TemplateContents
  else if String.eqb tagName "html" then BeforeHead
  else if String.eqb tagName "select" then InSelect
  else if name_in ["colgroup"; "frameset"] tagName then SpaceOnly
  else if name_in character_data_names tagName then CharacterData
  else InBody.

(** The text node that holds the given characters, if there are any. *)
Definition text_node (chars : list ascii) : list node :=
  match chars with
  | [] => []
  | _ => [Text (string_of_list_ascii chars)]
  end.

Fixpoint starts_with (prefix input : list ascii) : bool :=
  match prefix, input with
  | [], _ => true
  | _ :: _, [] => false
  | c :: prefix', c' :: input' =>
      Ascii.eqb c (to_lower c') && starts_with prefix' input'
  end.

(** Whether the input has an end tag that begins with one of the names,
    whatever the case of its letters. *)
Fixpoint has_end_tag_of (names : list string) (input : list ascii) : bool :=
  match input with
  | [] => false
  | c :: rest =>
      (Ascii.eqb c lt_sign
       && existsb
            (fun name => starts_with (slash :: list_ascii_of_string name) rest)
            names)
      || has_end_tag_of names rest
  end.

Definition is_plain (c : ascii) : bool :=
  negb (Nat.eqb (code c) 0 || Nat.eqb (code c) 13 || Nat.leb 128 (code c)
        || Ascii.eqb c ampersand).

(** In a character data context the whole markup is the data of one text
    node, as long as it has no character reference and no end tag that could
    close the context element. *)
Definition parse_character_data (html : string) : option (list node) :=
  let input := list_ascii_of_string html in
  if forallb is_plain input && negb (has_end_tag_of character_data_names input)
  then Some (text_node input)
  else None.

(** The tags of the modelled markup mean nothing in "in select", "in column
    group" and "in frameset": those modes ignore them and keep characters,
    the last two white space only. *)
Fixpoint characters_of (keep : ascii -> bool) (toks : list token)
  : option (list ascii) :=
  match toks with
  | [] => Some []
  | Character c :: rest =>
      match characters_of keep rest with
      | Some chars => Some (if keep c then c :: chars else chars)
      | None => None
      end
  | StartTag name _ :: rest | EndTag name :: rest =>
      if is_block name || is_heading name then characters_of keep rest
      else None
  end.

Definition parse_characters (keep : ascii -> bool) (html : string)
  : option (list node) :=
  match tokenize html with
  | Some toks =>
      match characters_of keep toks with
      | Some chars => Some (text_node chars)
      | None => None
      end
  | None => None
  end.

(** "Before head" ignores white space and the end tags of the modelled
    markup; the first other token makes the head and the body. *)
Fixpoint skip_before_head (toks : list token) : option (list token) :=
  match toks with
  | [] => Some []
  | Character c :: rest =>
      if is_space c then skip_before_head rest else Some toks
  | EndTag name :: rest =>
      if is_block name || is_heading name then skip_before_head rest
      else None
  | StartTag _ _ :: _ => Some toks
  end.

Definition parse_before_head (html : string) : option (list node) :=
  match tokenize html with
  | Some toks =>
      match skip_before_head toks with
      | Some rest =>
          match process_tokens rest (MkBuilder [] []) with
          | Some b =>
              Some [Element "head" [] []; Element "body" [] (stop_parsing b)]
          | None => None
          end
      | None => None
      end
  | None => None
  end.

(** The nodes the fragment parser hands back in each context. *)
Definition parse_in_context (ctx : context) (html : string)
  : option (list node) :=
  match ctx with
  | InBody => parse_fragment html
  | CharacterData => parse_character_data html
  | InSelect => parse_characters (fun _ => true) html
  | SpaceOnly => parse_characters is_space html
  | BeforeHead => parse_before_head html
  | TemplateContents => parse_fragment html
  end.

(** Elements whose text children are serialized as they are. *)
Definition raw_text_names : list string :=
  ["style"; "script"; "xmp"; "iframe"; "noembed"; "noframes"; "plaintext";
   "noscript"].

(** *** Serialization *)

(** Escaping a string in text or in attribute mode.  Characters outside
    ASCII, and angle brackets in attribute values, are outside the model. *)
Definition escape_char (attribute_mode : bool) (c : ascii) : option string :=
  if Nat.leb 128 (code c) then None
  else if Ascii.eqb c ampersand then Some "&amp;"
  else if attribute_mode then
    if Ascii.eqb c dquote then Some "&quot;"
    else if Ascii.eqb c lt_sign || Ascii.eqb c gt_sign then None
    else Some (String c EmptyString)
  else
    if Ascii.eqb c lt_sign then Some "&lt;"
    else if Ascii.eqb c gt_sign then Some "&gt;"
    else Some (String c EmptyString).

Fixpoint escape (attribute_mode : bool) (s : string) : option string :=
  match s with
  | EmptyString => Some EmptyString
  | String c rest =>
      match escape_char attribute_mode c, escape attribute_mode rest with
      | Some e, Some r => Some (e +:+ r)
      | _, _ => None
      end
  end.

Fixpoint serialize_attributes (attrs : list (string * string))
  : option string :=
  match attrs with
  | [] => Some EmptyString
  | (name, value) :: rest =>
      match escape true value, serialize_attributes rest with
      | Some v, Some r =>
          Some (" " +:+ name +:+ "=" +:+ String dquote v
                +:+ String dquote r)
      | _, _ => None
      end
  end.

Section SerializeChildren.
Variable serialize_one : node -> option string.

Fixpoint serialize_all (kids : list node) : option string :=
  match kids with
  | [] => Some EmptyString
  | k :: rest =>
      match serialize_one k, serialize_all rest with
      | Some a, Some b => Some (a +:+ b)
      | _, _ => None
      end
  end.
End SerializeChildren.

Fixpoint serialize_node (n : node) : option string :=
  match n with
  | Text data => escape false data
  | Comment data => Some ("<!--" +:+ data +:+ "-->")
  | Element name attrs kids =>
      if is_block name || is_heading name then
        match serialize_attributes attrs, serialize_all serialize_node kids with
        | Some a, Some inner =>
            Some ("<" +:+ name +:+ a +:+ ">" +:+ inner
                  +:+ "</" +:+ name +:+ ">")
        | _, _ => None
        end
      else None
  end.

(** The fragment serialization algorithm on the children of a node. *)
Definition serialize_fragment (kids : list node) : option string :=
  serialize_all serialize_node kids.

End Html.

(** ** Selectors *)

Module Selectors.
Import Dom Html.

(** The model knows ID selectors. *)
Inductive selector : Type :=
| IdSelector (id : string).

Inductive parsed_selector : Type :=
| Valid (s : selector)
| Invalid
| Unsupported.

Definition is_ident_start (c : ascii) : bool :=
  is_alpha c || Ascii.eqb c "_"%char.

Definition is_ident_char (c : ascii) : bool :=
  is_alpha c || is_digit c || Ascii.eqb c "-"%char || Ascii.eqb c "_"%char.

Definition is_ident (s : string) : bool :=
  match s with
  | String c rest =>
      is_ident_start c && forallb is_ident_char (list_ascii_of_string rest)
  | EmptyString => false
  end.

(** A hash sign followed by an identifier is an ID selector.  The empty
    string and a lone hash sign are not selectors; every other string is
    outside the model. *)
Definition parse_selector (s : string) : parsed_selector :=
  match s with
  | EmptyString => Invalid
  | String c rest =>
      if Ascii.eqb c "#"%char then
        match rest with
        | EmptyString => Invalid
        | _ => if is_ident rest then Valid (IdSelector rest) else Unsupported
        end
      else Unsupported
  end.

(** An ID selector matches the elements whose id is the given one. *)
Definition selects (s : selector) (n : node) : bool :=
  match s with
  | IdSelector id =>
      match element_id n with
      | Some v => String.eqb v id
      | None => false
      end
  end.

End Selectors.

(** ** The entry script *)

Module Script.
Import Dom Html Selectors.

Inductive exception : Type :=
| SyntaxError (message : string).

(** What an operation does on a document: it returns a value and leaves a
    document, it throws, or it leaves the modelled part of the platform. *)
Inductive outcome (A : Type) : Type :=
| Returns (a : A) (d : document)
| Throws (e : exception)
| Unmodelled.
Arguments Returns {A} a d.
Arguments Throws {A} e.
Arguments Unmodelled {A}.

Definition M (A : Type) : Type := document -> outcome A.

Definition ret {A : Type} (a : A) : M A := fun d => Returns a d.

Definition bind {A B : Type} (m : M A) (k : A -> M B) : M B :=
  fun d =>
    match m d with
    | Returns a d' => k a d'
    | Throws e => Throws e
    | Unmodelled => Unmodelled
    end.

Notation "'let*' x ':=' m 'in' k" := (bind m (fun x => k))
  (at level 10, x name, m at level 100, k at level 200).

(** [document.querySelector(sel)]: the first element in tree order that the
    selector matches, or null. *)
Definition querySelector (sel : string) : M (option path) :=
  fun d =>
    match parse_selector sel with
    | Valid s => Returns (search_document (selects s) d) d
    | Invalid => Throws (SyntaxError sel)
    | Unsupported => Unmodelled
    end.

(** [target.innerHTML = html]: the markup is parsed in the context of the
    target element and the nodes replace the element's children.  A template
    takes the nodes into its contents and keeps its children.  The script
    types its target as [HTMLDivElement]; the type is not checked when the
    script runs, so the target can be any element. *)
Definition set_innerHTML (target : path) (html : string) : M unit :=
  fun d =>
    match node_at target d with
    | Some (Element tagName _ _) =>
        match context_of tagName,
              parse_in_context (context_of tagName) html with
        | _, None => Unmodelled
        | TemplateContents, Some _ => Returns tt d
        | _, Some kids => Returns tt (set_children target kids d)
        end
    | _ => Unmodelled
    end.

(** [target.innerHTML] read back, for the elements whose children the
    serializer escapes and writes in full. *)
Definition get_innerHTML (target : path) (d : document) : option string :=
  match node_at target d with
  | Some (Element tagName _ kids) =>
      if String.eqb tagName "template" || name_in raw_text_names tagName
      then None
      else serialize_fragment kids
  | _ => None
  end.

Definition nl : string := String newline EmptyString.
Definition dq : string := String dquote EmptyString.

(** The template literal assigned by the script, line by line. *)
Definition fragment : string :=
  nl +:+
  "    <header>" +:+ nl +:+
  "      <h1>Poland in Numbers</h1>" +:+ nl +:+
  "      <p>D3.js Data Visualization App</p>" +:+ nl +:+
  "    </header>" +:+ nl +:+
  "    <main>" +:+ nl +:+
  "      <div id=" +:+ dq +:+ "visualizations" +:+ dq +:+ "></div>" +:+ nl +:+
  "    </main>" +:+ nl +:+
  "  ".

(** The script. *)
Definition main : M unit :=
  let* app := querySelector "#app" in
  match app with
  | Some app => set_innerHTML app fragment
  | None => ret tt
  end.

(** Loading the page runs the script on the document. *)
Definition bootstrap (d : document) : outcome unit := main d.

(** The children an element with the given tag and children has once the
    template has been assigned to its [innerHTML]. *)
Definition written_children (tagName : string) (old : list node)
  : list node :=
  match context_of tagName with
  | TemplateContents => old
  | ctx => default [] (parse_in_context ctx fragment)
  end.

(** The mount element: the first element of the document with id [app]. *)
Definition mount (d : document) : option path :=
  search_document (selects (IdSelector "app")) d.

(** [q] denotes the mount element or a node below it. *)
Definition within_mount (d : document) (q : path) : bool :=
  match mount d with
  | Some p => is_prefix p q
  | None => false
  end.

(** [q] denotes a node on the way from the document to the mount element. *)
Definition above_mount (d : document) (q : path) : bool :=
  match mount d with
  | Some p => is_prefix q p
  | None => false
  end.

(** A line break followed by [n] spaces of indentation. *)
Definition indent (n : nat) : string :=
  nl +:+ string_of_list_ascii (repeat " "%char n).

(** The nodes the template literal stands for. *)
Definition injected_nodes : list node :=
  [Text (indent 4);
   Element "header" []
     [Text (indent 6);
      Element "h1" [] [Text "Poland in Numbers"];
      Text (indent 6);
      Element "p" [] [Text "D3.js Data Visualization App"];
      Text (indent 4)];
   Text (indent 4);
   Element "main" []
     [Text (indent 6);
      Element "div" [("id", "visualizations")] [];
      Text (indent 4)];
   Text (indent 2)].

(** Text made of white space only lies between the elements of a layout. *)
Definition is_blank (n : node) : bool :=
  match n with
  | Text data => forallb is_space (list_ascii_of_string data)
  | _ => false
  end.

Section Elements.
Variable elements_of : node -> node.

Fixpoint elements_of_all (kids : list node) : list node :=
  match kids with
  | [] => []
  | k :: rest =>
      if is_blank k then elements_of_all rest
      else elements_of k :: elements_of_all rest
  end.
End Elements.

(** The tree without its blank text nodes. *)
Fixpoint elements_of (n : node) : node :=
  match n with
  | Element tag attrs kids =>
      Element tag attrs (elements_of_all elements_of kids)
  | _ => n
  end.

End Script.

(** ** The test configuration *)

Module Config.

Record coverage_thresholds : Type := MkThresholds {
  lines : nat;
  functions : nat;
  branches : nat;
  statements : nat
}.

Record coverage_options : Type := MkCoverage {
  provider : string;
  reporter : list string;
  exclude : list string;
  thresholds : coverage_thresholds
}.

Record test_options : Type := MkTest {
  environment : string;
  coverage : coverage_options
}.

Record user_config : Type := MkConfig {
  test : test_options
}.

(** Vite's [defineConfig] hands its argument back. *)
Definition defineConfig (c : user_config) : user_config := c.

Definition vite_config : user_config :=
  defineConfig
    {| test :=
         {| environment := "jsdom";
            coverage :=
              {| provider := "v8";
                 reporter := ["text"; "json"; "html"];
                 exclude := ["node_modules/"; "tests/"; "**/*.d.ts";
                             "**/*.config.*"];
                 thresholds :=
                   {| lines := 80;
                      functions := 80;
                      branches := 80;
                      statements := 80 |} |} |} |}.

End Config.

(** ** Two pages to run the script on *)

Module Samples.
Import Dom.

(** A page whose body holds the mount element with some earlier content,
    a second element with the same id, and the script tag. *)
Definition page_with_mount : document :=
  [Element "html" [("lang", "en")]
     [Element "head" [] [Element "title" [] [Text "Poland in Numbers"]];
      Element "body" []
        [Text "loading";
         Element "div" [("class", "root"); ("id", "app")]
           [Element "span" [("id", "app")] [Text "old"]];
         Element "div" [("id", "app")] [Text "second"];
         Element "script" [("type", "module"); ("src", "/src/main.ts")] []]]].

(** The same page once the script has run. *)
Definition page_after_bootstrap : document :=
  [Element "html" [("lang", "en")]
     [Element "head" [] [Element "title" [] [Text "Poland in Numbers"]];
      Element "body" []
        [Text "loading";
         Element "div" [("class", "root"); ("id", "app")]
           Script.injected_nodes;
         Element "div" [("id", "app")] [Text "second"];
         Element "script" [("type", "module"); ("src", "/src/main.ts")] []]]].

(** A page whose mount element is a textarea. *)
Definition page_with_textarea_mount : document :=
  [Element "html" []
     [Element "head" [] [];
      Element "body" [] [Element "textarea" [("id", "app")] [Text "old"]]]].

(** A page whose mount element is a template with a child. *)
Definition page_with_template_mount : document :=
  [Element "html" []
     [Element "head" [] [];
      Element "body" []
        [Element "template" [("id", "app")]
           [Element "p" [] [Text "kept"]]]]].

(** A page without an element of id [app]. *)
Definition page_without_mount : document :=
  [Element "html" []
     [Element "head" [] [];
      Element "body" [] [Element "div" [("id", "root")] [Text "hello"]]]].

End Samples.

(** ** The validation helpers of the contributor guide

    The guide's section on common data patterns gives two functions that
    check data before it is rendered. *)

Module Guide.

(** A JavaScript number as comparisons see it: not-a-number, the two
    infinities, or a finite value.  Finite doubles are rationals, and [<=]
    and [>=] compare them exactly. *)
Inductive number : Type :=
| NaN
| NegInfinity
| Finite (q : Q)
| PosInfinity.

(** [a <= b]: false as soon as one side is not a number. *)
Definition number_le (a b : number) : bool :=
  match a, b with
  | NaN, _ => false
  | _, NaN => false
  | NegInfinity, _ => true
  | _, PosInfinity => true
  | Finite x, Finite y => Qle_bool x y
  | _, _ => false
  end.

(** [a >= b]. *)
Definition number_ge (a b : number) : bool := number_le b a.

Definition of_Z (z : Z) : number := Finite (inject_Z z).

(** [isValidCoordinate]: longitude within -180..180 and latitude within
    -90..90. *)
Definition isValidCoordinate (coord : number * number) : bool :=
  let '(lon, lat) := coord in
  number_ge lon (of_Z (-180)) && number_le lon (of_Z 180)
  && number_ge lat (of_Z (-90)) && number_le lat (of_Z 90).

Record network_node : Type := MkNode {
  id : string;
  label : string;
  value : option number
}.

Record network_edge : Type := MkEdge {
  source : string;
  target : string;
  weight : option number
}.

Record NetworkData : Type := MkNetwork {
  nodes : list network_node;
  edges : list network_edge
}.

(** [validateNetwork]: every edge starts and ends at the id of a node. *)
Definition validateNetwork (data : NetworkData) : bool :=
  let nodeIds : gset string := list_to_set (map id (nodes data)) in
  forallb
    (fun e =>
       bool_decide (source e ∈ nodeIds) && bool_decide (target e ∈ nodeIds))
    (edges data).

(** A network of three cities, with two nodes sharing an id. *)
Definition sample_network : NetworkData :=
  {| nodes := [MkNode "waw" "Warszawa" (Some (of_Z 1860));
               MkNode "krk" "Krakow" None;
               MkNode "gdn" "Gdansk" None;
               MkNode "krk" "Cracow" None];
     edges := [MkEdge "waw" "krk" (Some (of_Z 252));
               MkEdge "gdn" "waw" None;
               MkEdge "krk" "krk" None] |}.

End Guide.

(** ** Facts about the document tree *)

Module DomFacts.
Import Dom.

(** Induction over a node with the hypothesis for all its children. *)
Lemma node_ind (P : node -> Prop) :
  (forall data, P (Text data)) ->
  (forall data, P (Comment data)) ->
  (forall tag attrs kids, Forall P kids -> P (Element tag attrs kids)) ->
  forall n, P n.
Proof.
  intros HText HComment HElement. fix IH 1.
  intros [data|data|tag attrs kids]; [apply HText|apply HComment|].
  apply HElement. induction kids as [|k kids IHkids]; constructor.
  - apply IH.
  - apply IHkids.
Qed.

Lemma is_prefix_tree_order (p q : path) :
  is_prefix p q = true -> tree_order_le p q = true.
Proof.
  revert q. induction p as [|i p IH]; intros [|j q]; simpl; try done.
  intros [Hij Hpq]%andb_prop. rewrite Hij.
  destruct (i <? j); [done|]. by apply IH.
Qed.

Lemma tree_order_le_antisym (p q : path) :
  tree_order_le p q = true -> tree_order_le q p = true -> p = q.
Proof.
  revert q. induction p as [|i p IH]; intros [|j q]; simpl; try done.
  destruct (Nat.ltb_spec i j) as [Hlt|Hge].
  - destruct (Nat.ltb_spec j i); [lia|].
    destruct (Nat.eqb_spec j i); [lia|done].
  - destruct (Nat.eqb_spec i j) as [->|Hne]; [|done].
    rewrite Nat.ltb_irrefl, Nat.eqb_refl. intros H1 H2. f_equal. by apply IH.
Qed.

(** *** Reading a node after a write *)

Lemma sub_at_set_children_in (p : path) (new : list node) (n : node)
    tag attrs kids :
  sub_at p n = Some (Element tag attrs kids) ->
  sub_at p (set_children_in p new n) = Some (Element tag attrs new).
Proof.
  revert n. induction p as [|i p IH]; intros n; simpl.
  - intros [= ->]. done.
  - destruct n as [data|data|t a ks]; simpl; try done.
    rewrite list_lookup_alter_eq.
    destruct (ks !! i) as [k|] eqn:Hk; simpl; [|done]. apply IH.
Qed.

Lemma node_at_set_children (p : path) (new : list node) (d : document)
    tag attrs kids :
  node_at p d = Some (Element tag attrs kids) ->
  node_at p (set_children p new d) = Some (Element tag attrs new).
Proof.
  destruct p as [|i p]; simpl; [done|].
  rewrite list_lookup_alter_eq.
  destruct (d !! i) as [k|] eqn:Hk; simpl; [|done].
  apply sub_at_set_children_in.
Qed.

(** A node that is neither the target, nor below it, nor above it keeps
    its whole subtree. *)
Lemma sub_at_set_children_in_apart (p q : path) (new : list node) (n : node) :
  is_prefix p q = false -> is_prefix q p = false ->
  sub_at q (set_children_in p new n) = sub_at q n.
Proof.
  revert q n. induction p as [|i p IH]; intros [|j q] n; simpl; try done.
  destruct n as [data|data|t a ks]; simpl; try done.
  destruct (Nat.eqb_spec i j) as [->|Hne]; simpl.
  - rewrite Nat.eqb_refl; simpl. intros Hpq Hqp.
    rewrite list_lookup_alter_eq.
    destruct (ks !! j) as [k|]; simpl; [|done]. by apply IH.
  - intros _ _. by rewrite list_lookup_alter_ne.
Qed.

Lemma node_at_set_children_apart (p q : path) (new : list node)
    (d : document) :
  is_prefix p q = false -> is_prefix q p = false ->
  node_at q (set_children p new d) = node_at q d.
Proof.
  destruct p as [|i p], q as [|j q]; simpl; try done.
  destruct (Nat.eqb_spec i j) as [->|Hne]; simpl.
  - rewrite Nat.eqb_refl; simpl. intros Hpq Hqp.
    rewrite list_lookup_alter_eq.
    destruct (d !! j) as [k|]; simpl; [|done].
    by apply sub_at_set_children_in_apart.
  - intros _ _. by rewrite list_lookup_alter_ne.
Qed.

(** A node that is neither the target nor below it keeps its tag, its
    attributes and the number of its children. *)
Lemma shell_sub_at_set_children_in (p q : path) (new : list node) (n : node) :
  is_prefix p q = false ->
  shell <$> sub_at q (set_children_in p new n) =
  shell <$> sub_at q n.
Proof.
  revert p n. induction q as [|j q IH]; intros [|i p] n; simpl; try done.
  - intros _. destruct n as [data|data|t a ks]; simpl; try done.
    by rewrite length_alter.
  - destruct n as [data|data|t a ks]; simpl; try done.
    destruct (Nat.eqb_spec i j) as [->|Hne]; simpl.
    + intros Hpq. rewrite list_lookup_alter_eq.
      destruct (ks !! j) as [k|]; simpl; [|done]. by apply IH.
    + intros _. by rewrite list_lookup_alter_ne.
Qed.

Lemma shell_node_at_set_children (p q : path) (new : list node)
    (d : document) :
  is_prefix p q = false ->
  shell <$> node_at q (set_children p new d) =
  shell <$> node_at q d.
Proof.
  destruct p as [|i p], q as [|j q]; simpl; try done.
  destruct (Nat.eqb_spec i j) as [->|Hne]; simpl.
  - intros Hpq. rewrite list_lookup_alter_eq.
    destruct (d !! j) as [k|]; simpl; [|done].
    by apply shell_sub_at_set_children_in.
  - intros _. by rewrite list_lookup_alter_ne.
Qed.

(** Writing twice at the same place is writing the second content. *)
Lemma set_children_in_twice (p : path) (old new : list node) (n : node) :
  set_children_in p new (set_children_in p old n) = set_children_in p new n.
Proof.
  revert n.
  induction p as [|i p IH]; intros [data|data|t a ks]; simpl; try done.
  f_equal. rewrite list_alter_alter_eq. apply list_alter_ext; [|done].
  intros k _. apply IH.
Qed.

Lemma set_children_twice (p : path) (old new : list node) (d : document) :
  set_children p new (set_children p old d) = set_children p new d.
Proof.
  destruct p as [|i p]; simpl; [done|].
  rewrite list_alter_alter_eq. apply list_alter_ext; [|done].
  intros k _. apply set_children_in_twice.
Qed.

(** *** The search *)

Section SearchFacts.
Variable matches : node -> bool.

Lemma first_match_Some (within : node -> option path) (kids : list node)
    (q : path) :
  first_match within kids = Some q <->
  exists i k p,
    q = i :: p /\ kids !! i = Some k /\ within k = Some p /\
    forall j k', j < i -> kids !! j = Some k' -> within k' = None.
Proof.
  revert q. induction kids as [|k0 kids IH]; intros q; simpl.
  - split; [done|]. by intros (i & k & p & _ & Hk & _).
  - destruct (within k0) as [p0|] eqn:H0.
    + split.
      * intros [= <-]. exists 0, k0, p0. repeat split; try done. lia.
      * intros (i & k & p & -> & Hk & Hp & Hmin).
        destruct i as [|i]; simpl in Hk.
        -- injection Hk as ->. congruence.
        -- specialize (Hmin 0 k0 ltac:(lia) eq_refl). congruence.
    + split.
      * destruct (first_match within kids) as [[|i p]|] eqn:Hrest; try done.
        intros [= <-].
        destruct (proj1 (IH (i :: p)) eq_refl)
          as (i' & k & p' & [= -> ->] & Hk & Hp & Hmin).
        exists (S i'), k, p'. repeat split; try done.
        intros [|j] k' Hj Hk'; simpl in Hk'.
        -- congruence.
        -- apply (Hmin j); [lia|done].
      * intros (i & k & p & -> & Hk & Hp & Hmin).
        destruct i as [|i]; simpl in Hk; [congruence|].
        assert (first_match within kids = Some (i :: p)) as ->; [|done].
        apply IH. exists i, k, p. repeat split; try done.
        intros j k' Hj Hk'. apply (Hmin (S j)); [lia|done].
Qed.

Lemma first_match_None (within : node -> option path) (kids : list node) :
  first_match within kids = None <-> Forall (fun k => within k = None) kids.
Proof.
  induction kids as [|k0 kids IH]; simpl.
  - split; [constructor|done].
  - destruct (within k0) as [p0|] eqn:H0.
    + split; [done|]. intros Hall.
      apply Forall_cons in Hall as [? _]. congruence.
    + destruct (first_match within kids) as [[|i p]|] eqn:Hrest.
      * apply first_match_Some in Hrest as (? & ? & ? & ? & _). done.
      * split; [done|]. intros Hall. apply Forall_cons in Hall as [_ Hall].
        apply IH in Hall. done.
      * split; [|done]. intros _. constructor; [done|]. by apply IH.
Qed.

(** What the search returns denotes a matching element. *)
Lemma search_sound (n : node) (p : path) :
  search matches n = Some p ->
  exists tag attrs kids,
    sub_at p n = Some (Element tag attrs kids) /\
    matches (Element tag attrs kids) = true.
Proof.
  revert p. induction n as [data|data|t a ks IH] using node_ind;
    intros p; simpl; try done.
  destruct (matches (Element t a ks)) eqn:Hm.
  - intros [= <-]. by exists t, a, ks.
  - intros (i & k & p' & -> & Hk & Hp & _)%first_match_Some.
    simpl. rewrite Hk.
    eapply Forall_lookup_1 in IH; [|exact Hk]. by apply IH.
Qed.

(** A subtree in which the search finds nothing has no matching element. *)
Lemma search_None (n : node) :
  search matches n = None ->
  forall q tag attrs kids,
    sub_at q n = Some (Element tag attrs kids) ->
    matches (Element tag attrs kids) = false.
Proof.
  induction n as [data|data|t a ks IH] using node_ind; simpl.
  - by intros _ [|j q] tag attrs kids.
  - by intros _ [|j q] tag attrs kids.
  - destruct (matches (Element t a ks)) eqn:Hm; [done|].
    intros Hnone%first_match_None [|j q] tag attrs kids; simpl.
    + by intros [= <- <- <-].
    + destruct (ks !! j) as [k|] eqn:Hk; [|done].
      eapply Forall_lookup_1 in IH; [|exact Hk].
      eapply Forall_lookup_1 in Hnone; [|exact Hk].
      by apply IH.
Qed.

(** What the search returns is first in tree order among the matching
    elements. *)
Lemma search_first (n : node) (p : path) :
  search matches n = Some p ->
  forall q tag attrs kids,
    sub_at q n = Some (Element tag attrs kids) ->
    matches (Element tag attrs kids) = true ->
    tree_order_le p q = true.
Proof.
  revert p. induction n as [data|data|t a ks IH] using node_ind;
    intros p; simpl; try done.
  destruct (matches (Element t a ks)) eqn:Hm.
  - by intros [= <-].
  - intros (i & k & p' & -> & Hk & Hp & Hmin)%first_match_Some
      [|j q] tag attrs kids; simpl.
    + intros [= <- <- <-]. congruence.
    + destruct (ks !! j) as [kj|] eqn:Hkj; [|done]. intros Hq Hmq.
      destruct (Nat.ltb_spec i j) as [Hlt|Hge]; [done|].
      destruct (Nat.eqb_spec i j) as [->|Hne].
      * assert (kj = k) as -> by congruence.
        eapply Forall_lookup_1 in IH; [|exact Hk]. by eapply IH.
      * assert (search matches kj = None) as Hnone
          by (apply (Hmin j); [lia|done]).
        rewrite (search_None _ Hnone _ _ _ _ Hq) in Hmq. done.
Qed.

(** For a document, the same three facts. *)
Lemma search_document_sound (d : document) (p : path) :
  search_document matches d = Some p ->
  exists tag attrs kids,
    node_at p d = Some (Element tag attrs kids) /\
    matches (Element tag attrs kids) = true.
Proof.
  intros (i & k & p' & -> & Hk & Hp & _)%first_match_Some.
  simpl. rewrite Hk. by apply search_sound.
Qed.

Lemma search_document_None (d : document) :
  search_document matches d = None ->
  forall q tag attrs kids,
    node_at q d = Some (Element tag attrs kids) ->
    matches (Element tag attrs kids) = false.
Proof.
  intros Hnone%first_match_None [|j q] tag attrs kids; simpl; [done|].
  destruct (d !! j) as [k|] eqn:Hk; [|done].
  eapply Forall_lookup_1 in Hnone; [|exact Hk].
  by apply search_None.
Qed.

Lemma search_document_first (d : document) (p : path) :
  search_document matches d = Some p ->
  forall q tag attrs kids,
    node_at q d = Some (Element tag attrs kids) ->
    matches (Element tag attrs kids) = true ->
    tree_order_le p q = true.
Proof.
  intros (i & k & p' & -> & Hk & Hp & Hmin)%first_match_Some
    [|j q] tag attrs kids; simpl; [done|].
  destruct (d !! j) as [kj|] eqn:Hkj; [|done]. intros Hq Hmq.
  destruct (Nat.ltb_spec i j) as [Hlt|Hge]; [done|].
  destruct (Nat.eqb_spec i j) as [->|Hne].
  - assert (kj = k) as -> by congruence. by eapply search_first.
  - assert (search matches kj = None) as Hnone
      by (apply (Hmin j); [lia|done]).
    rewrite (search_None _ Hnone _ _ _ _ Hq) in Hmq. done.
Qed.

(** When the test looks at the tag and the attributes only, replacing the
    children of the element found does not move the result. *)
Hypothesis matches_shallow : forall tag attrs kids kids',
  matches (Element tag attrs kids) = matches (Element tag attrs kids').

Lemma search_set_children_in (n : node) (p : path) (new : list node) :
  search matches n = Some p ->
  search matches (set_children_in p new n) = Some p.
Proof.
  revert p. induction n as [data|data|t a ks IH] using node_ind;
    intros p; simpl; try done.
  destruct (matches (Element t a ks)) eqn:Hm.
  - intros [= <-]. simpl. by rewrite (matches_shallow t a new ks), Hm.
  - intros (i & k & p' & -> & Hk & Hp & Hmin)%first_match_Some. simpl.
    rewrite (matches_shallow t a _ ks), Hm.
    apply first_match_Some. exists i, (set_children_in p' new k), p'.
    repeat split.
    + by rewrite list_lookup_alter_eq, Hk.
    + eapply Forall_lookup_1 in IH; [|exact Hk]. by apply IH.
    + intros j k' Hj. rewrite list_lookup_alter_ne by lia. by apply Hmin.
Qed.

Lemma search_document_set_children (d : document) (p : path)
    (new : list node) :
  search_document matches d = Some p ->
  search_document matches (set_children p new d) = Some p.
Proof.
  intros (i & k & p' & -> & Hk & Hp & Hmin)%first_match_Some. simpl.
  apply first_match_Some. exists i, (set_children_in p' new k), p'.
  repeat split.
  - by rewrite list_lookup_alter_eq, Hk.
  - by apply search_set_children_in.
  - intros j k' Hj. rewrite list_lookup_alter_ne by lia. by apply Hmin.
Qed.
End SearchFacts.

End DomFacts.

(** ** Further facts about the document tree *)

Module TreeFacts.
Import Dom DomFacts.

Lemma alter_fixed {A : Type} (f : A -> A) (l : list A) (i : nat) (x : A) :
  l !! i = Some x -> f x = x -> alter f i l = l.
Proof.
  revert i. induction l as [|a l IH]; intros [|i]; simpl; try done.
  - intros [= ->] Hfx. unfold alter. simpl. by rewrite Hfx.
  - intros Hl Hfx. unfold alter. simpl. f_equal. by apply IH.
Qed.

(** Writing the children an element already has changes nothing. *)
Lemma set_children_in_same (p : path) (n : node) tag attrs kids :
  sub_at p n = Some (Element tag attrs kids) ->
  set_children_in p kids n = n.
Proof.
  revert n. induction p as [|i p IH]; intros n; simpl.
  - by intros [= ->].
  - destruct n as [data|data|t a ks]; simpl; try done.
    destruct (ks !! i) as [k|] eqn:Hk; [|done]. intros Hsub. f_equal.
    eapply alter_fixed; [exact Hk|]. by apply IH.
Qed.

Lemma set_children_same (p : path) (d : document) tag attrs kids :
  node_at p d = Some (Element tag attrs kids) ->
  set_children p kids d = d.
Proof.
  destruct p as [|i p]; simpl; [done|].
  destruct (d !! i) as [k|] eqn:Hk; [|done]. intros Hsub.
  eapply alter_fixed; [exact Hk|]. by eapply set_children_in_same.
Qed.

Lemma sub_at_app (p r : path) (n : node) :
  sub_at (p ++ r) n =
  match sub_at p n with
  | Some m => sub_at r m
  | None => None
  end.
Proof.
  revert n. induction p as [|i p IH]; intros n; simpl; [done|].
  destruct (children n !! i) as [k|]; [apply IH|done].
Qed.

Lemma node_at_app (p r : path) (d : document) :
  p <> [] ->
  node_at (p ++ r) d =
  match node_at p d with
  | Some n => sub_at r n
  | None => None
  end.
Proof.
  destruct p as [|i p]; [done|]. intros _. simpl.
  destruct (d !! i) as [k|]; [apply sub_at_app|done].
Qed.

(** Below an element, a path reads the element's children. *)
Lemma sub_at_children (r : path) tag attrs kids :
  r <> [] -> sub_at r (Element tag attrs kids) = node_at r kids.
Proof. by destruct r. Qed.

Lemma is_prefix_split (p q : path) :
  is_prefix p q = true -> exists r, q = p ++ r.
Proof.
  revert q. induction p as [|i p IH]; intros q; simpl; [by exists q|].
  destruct q as [|j q]; [done|].
  intros [Hij Hpq]%andb_prop. apply Nat.eqb_eq in Hij as ->.
  destruct (IH q Hpq) as [r ->]. by exists r.
Qed.

Lemma tree_order_le_app (p r r' : path) :
  tree_order_le (p ++ r) (p ++ r') = tree_order_le r r'.
Proof.
  induction p as [|i p IH]; simpl; [done|].
  by rewrite Nat.ltb_irrefl, Nat.eqb_refl.
Qed.

(** An element with the same shell is an element with the same tag and
    attributes. *)
Lemma shell_element (o o' : option node) tag attrs kids :
  shell <$> o' = shell <$> o ->
  o' = Some (Element tag attrs kids) ->
  exists kids0, o = Some (Element tag attrs kids0).
Proof.
  intros Hshell ->. destruct o as [[data|data|t a ks]|]; simpl in Hshell;
    try done.
  injection Hshell as <- <- _. by exists ks.
Qed.

(** Where some element matches, the search finds one. *)
Lemma search_document_finds (matches : node -> bool) (d : document)
    (q : path) tag attrs kids :
  node_at q d = Some (Element tag attrs kids) ->
  matches (Element tag attrs kids) = true ->
  exists p, search_document matches d = Some p.
Proof.
  intros Hq Hm. destruct (search_document matches d) as [p|] eqn:Hs.
  - by exists p.
  - by rewrite (search_document_None _ _ Hs _ _ _ _ Hq) in Hm.
Qed.

End TreeFacts.

(** ** Facts about the script *)

Module ScriptFacts.
Import Dom Html Selectors Script DomFacts TreeFacts.

Lemma parse_fragment_fragment : parse_fragment fragment = Some injected_nodes.
Proof. vm_compute. reflexivity. Qed.


Lemma selects_shallow (s : selector) tag attrs kids kids' :
  selects s (Element tag attrs kids) = selects s (Element tag attrs kids').
Proof. by destruct s. Qed.

Lemma selects_id (name : string) tag attrs kids :
  name <> EmptyString ->
  selects (IdSelector name) (Element tag attrs kids) = true <->
  getAttribute "id" attrs = Some name.
Proof.
  intros Hname. simpl. destruct (getAttribute "id" attrs) as [v|]; [|done].
  destruct (String.eqb_spec v EmptyString) as [->|Hne].
  - split; [done|]. by intros [= <-].
  - destruct (String.eqb_spec v name) as [->|Hne']; [done|].
    split; [done|]. by intros [= ->].
Qed.

Lemma selects_app tag attrs kids :
  selects (IdSelector "app") (Element tag attrs kids) = true <->
  getAttribute "id" attrs = Some "app".
Proof. by apply selects_id. Qed.

Lemma querySelector_app (d : document) :
  querySelector "#app" d = Returns (mount d) d.
Proof. reflexivity. Qed.

Lemma mount_sound (d : document) (p : path) :
  mount d = Some p ->
  exists tag attrs kids,
    node_at p d = Some (Element tag attrs kids) /\
    getAttribute "id" attrs = Some "app".
Proof.
  intros (tag & attrs & kids & Hat & Hm)%search_document_sound.
  exists tag, attrs, kids. split; [done|].
  by apply (selects_app tag attrs kids).
Qed.

Lemma mount_None (d : document) :
  mount d = None <->
  forall q tag attrs kids,
    node_at q d = Some (Element tag attrs kids) ->
    getAttribute "id" attrs <> Some "app".
Proof.
  split.
  - intros Hnone q tag attrs kids Hq Hid.
    apply (selects_app tag attrs kids) in Hid.
    by rewrite (search_document_None _ _ Hnone _ _ _ _ Hq) in Hid.
  - intros Hall. destruct (mount d) as [p|] eqn:Hm; [|done].
    apply mount_sound in Hm as (tag & attrs & kids & Hat & Hid).
    by destruct (Hall _ _ _ _ Hat).
Qed.

Lemma mount_nonempty (d : document) (p : path) : mount d = Some p -> p <> [].
Proof. intros (tag & attrs & kids & Hat & _)%mount_sound ->. done. Qed.

Lemma mount_set_children (d : document) (p : path) (new : list node) :
  mount d = Some p -> mount (set_children p new d) = Some p.
Proof.
  apply search_document_set_children. intros. apply selects_shallow.
Qed.

(** *** The template in every context *)

(** The template is inside the modelled markup whatever the context. *)
Lemma template_parses (ctx : context) :
  exists kids, parse_in_context ctx fragment = Some kids.
Proof. destruct ctx; eexists; vm_compute; reflexivity. Qed.

(** In no context does the template give an element with id "app". *)
Lemma template_has_no_mount (ctx : context) :
  search_document (selects (IdSelector "app"))
    (default [] (parse_in_context ctx fragment)) = None.
Proof. destruct ctx; vm_compute; reflexivity. Qed.

Lemma written_children_div (old : list node) :
  written_children "div" old = injected_nodes.
Proof. vm_compute. reflexivity. Qed.

Lemma written_children_twice (tag : string) (old : list node) :
  written_children tag (written_children tag old) = written_children tag old.
Proof. unfold written_children. by destruct (context_of tag). Qed.

Lemma written_children_no_mount (tag : string) (old : list node) (r : path)
    t a k :
  context_of tag <> TemplateContents ->
  node_at r (written_children tag old) = Some (Element t a k) ->
  getAttribute "id" a <> Some "app".
Proof.
  intros Hctx Hr Hid. apply (selects_app t a k) in Hid.
  assert (search_document (selects (IdSelector "app"))
            (written_children tag old) = None) as Hnone.
  { unfold written_children.
    pose proof (template_has_no_mount (context_of tag)) as Hnone.
    destruct (context_of tag); [exact Hnone..|]. by destruct Hctx. }
  by rewrite (search_document_None _ _ Hnone _ _ _ _ Hr) in Hid.
Qed.

(** The assignment of the script, resolved. *)
Lemma set_innerHTML_fragment (d : document) (p : path) tag attrs old :
  node_at p d = Some (Element tag attrs old) ->
  set_innerHTML p fragment d =
  Returns tt (set_children p (written_children tag old) d).
Proof.
  intros Hat. unfold set_innerHTML, written_children. rewrite Hat.
  destruct (context_of tag) eqn:Hctx;
    match goal with
    | |- context [parse_in_context ?ctx fragment] =>
        destruct (template_parses ctx) as [kids Hkids]
    end;
    rewrite ?Hkids; clear Hkids; [reflexivity..|].
  rewrite (set_children_same p d tag attrs old Hat). reflexivity.
Qed.

Lemma bootstrap_mounted (d : document) (p : path) tag attrs old :
  mount d = Some p ->
  node_at p d = Some (Element tag attrs old) ->
  bootstrap d = Returns tt (set_children p (written_children tag old) d).
Proof.
  intros Hm Hat. unfold bootstrap, main, bind.
  rewrite querySelector_app, Hm. by eapply set_innerHTML_fragment.
Qed.

Lemma bootstrap_div_mounted (d : document) (p : path) attrs old :
  mount d = Some p ->
  node_at p d = Some (Element "div" attrs old) ->
  bootstrap d = Returns tt (set_children p injected_nodes d).
Proof.
  intros Hm Hat. rewrite <- (written_children_div old).
  by eapply bootstrap_mounted.
Qed.

Lemma bootstrap_unmounted (d : document) :
  mount d = None -> bootstrap d = Returns tt d.
Proof.
  intros Hm. unfold bootstrap, main, bind. by rewrite querySelector_app, Hm.
Qed.

(** After the write, a path that goes below the mount element reads the
    written nodes. *)
Lemma node_at_below_mount (d : document) (p r : path) tag attrs old :
  mount d = Some p -> r <> [] ->
  node_at p d = Some (Element tag attrs old) ->
  node_at (p ++ r) (set_children p (written_children tag old) d) =
  node_at r (written_children tag old).
Proof.
  intros Hm Hr Hat. rewrite node_at_app by by eapply mount_nonempty.
  rewrite (node_at_set_children p _ d _ _ _ Hat).
  by apply sub_at_children.
Qed.

Lemma template_container :
  search_document (selects (IdSelector "visualizations")) injected_nodes =
  Some [3; 1].
Proof. reflexivity. Qed.

End ScriptFacts.

(** ** The model at work *)

Module Examples.
Import Dom Html Selectors Script Samples.

Example tokenize_start_tag :
  tokenize ("<DIV id=" +:+ dq +:+ "a" +:+ dq +:+ " id=" +:+ dq +:+ "b"
            +:+ dq +:+ ">x") =
  Some [StartTag "div" [("id", "a")]; Character "x"].
Proof. vm_compute. reflexivity. Qed.

Example parse_paragraph_closed_by_block :
  parse_fragment "<p>a<div>b</div>c</p>" =
  Some [Element "p" [] [Text "a"]; Element "div" [] [Text "b"]; Text "c";
        Element "p" [] []].
Proof. vm_compute. reflexivity. Qed.

Example parse_heading_closed_by_heading :
  parse_fragment "<h1>x<h2>y</h1>z" =
  Some [Element "h1" [] [Text "x"]; Element "h2" [] [Text "y"]; Text "z"].
Proof. vm_compute. reflexivity. Qed.

Example parse_unclosed_elements :
  parse_fragment "<main><section>text" =
  Some [Element "main" [] [Element "section" [] [Text "text"]]].
Proof. vm_compute. reflexivity. Qed.

Example parse_stray_end_tag :
  parse_fragment "a</div>b" = Some [Text "ab"].
Proof. vm_compute. reflexivity. Qed.

Example parse_outside_the_subset :
  parse_fragment "<span>x</span>" = None /\
  parse_fragment "a &amp; b" = None /\
  parse_fragment "<div" = None.
Proof. vm_compute. repeat split. Qed.

Example serialize_escapes_text :
  serialize_fragment [Element "p" [("title", "a&b")] [Text "1 < 2"]] =
  Some ("<p title=" +:+ dq +:+ "a&amp;b" +:+ dq +:+ ">1 &lt; 2</p>").
Proof. vm_compute. reflexivity. Qed.

Example selector_forms :
  parse_selector "#app" = Valid (IdSelector "app") /\
  parse_selector "#" = Invalid /\
  parse_selector EmptyString = Invalid /\
  parse_selector "div > p" = Unsupported.
Proof. repeat split. Qed.

Example query_finds_first_app :
  querySelector "#app" page_with_mount =
  Returns (Some [0; 1; 1]) page_with_mount.
Proof. reflexivity. Qed.

Example query_finds_nothing :
  querySelector "#app" page_without_mount = Returns None page_without_mount.
Proof. reflexivity. Qed.

Example query_rejects_lone_hash :
  querySelector "#" page_with_mount = Throws (SyntaxError "#").
Proof. reflexivity. Qed.

Example bootstrap_on_page_with_mount :
  bootstrap page_with_mount = Returns tt page_after_bootstrap.
Proof. vm_compute. reflexivity. Qed.

Example bootstrap_on_page_without_mount :
  bootstrap page_without_mount = Returns tt page_without_mount.
Proof. vm_compute. reflexivity. Qed.

Example innerHTML_before_and_after :
  get_innerHTML [0; 1; 2] page_with_mount = Some "second" /\
  get_innerHTML [0; 1; 1] page_after_bootstrap = Some fragment.
Proof. vm_compute. repeat split. Qed.

Example contexts_of_elements :
  map context_of ["div"; "section"; "td"; "textarea"; "title"; "select";
                  "colgroup"; "html"; "template"] =
  [InBody; InBody; InBody; CharacterData; CharacterData; InSelect;
   SpaceOnly; BeforeHead; TemplateContents].
Proof. reflexivity. Qed.

Example parse_as_character_data :
  parse_in_context CharacterData "<p>a</p>" = Some [Text "<p>a</p>"] /\
  parse_in_context CharacterData EmptyString = Some [] /\
  parse_in_context CharacterData "a</TextArea>b" = None.
Proof. vm_compute. repeat split. Qed.

Example parse_in_select_and_colgroup :
  parse_in_context InSelect "<p>a b</p> c" = Some [Text "a b c"] /\
  parse_in_context SpaceOnly "<p>a b</p> c" = Some [Text "  "] /\
  parse_in_context SpaceOnly "<p>ab</p>" = Some [].
Proof. vm_compute. repeat split. Qed.

Example parse_in_html :
  parse_in_context BeforeHead "  </div> x<div>y" =
    Some [Element "head" [] [];
          Element "body" [] [Text "x"; Element "div" [] [Text "y"]]] /\
  parse_in_context BeforeHead EmptyString =
    Some [Element "head" [] []; Element "body" [] []].
Proof. vm_compute. repeat split. Qed.

Example bootstrap_on_page_with_textarea_mount :
  bootstrap page_with_textarea_mount =
  Returns tt
    [Element "html" []
       [Element "head" [] [];
        Element "body" []
          [Element "textarea" [("id", "app")] [Text fragment]]]].
Proof. vm_compute. reflexivity. Qed.

Example bootstrap_on_page_with_template_mount :
  bootstrap page_with_template_mount = Returns tt page_with_template_mount.
Proof. vm_compute. reflexivity. Qed.

Example innerHTML_of_template_is_not_read :
  get_innerHTML [0; 1; 0] page_with_template_mount = None.
Proof. reflexivity. Qed.

Example tree_order_on_references :
  tree_order_le [0; 1] [0; 1; 1] = true /\
  tree_order_le [0; 1; 1] [0; 1; 2] = true /\
  tree_order_le [0; 1; 2] [0; 1; 1; 0] = false.
Proof. repeat split. Qed.

End Examples.

(** ** The properties of the bootstrap and of the configuration *)

Import Dom Html Selectors Script DomFacts TreeFacts ScriptFacts.

(** C1, amended: in a document whose mount element, the first element
    with id "app", is a div, as the script types it, the bootstrap returns,
    and afterwards the mount element has as its content the nodes of the
    template: among them a header whose heading reads "Poland in Numbers"
    and a container element with id "visualizations" and no child nodes. *)
Theorem bootstrap_fills_mount (d : document) (p : path) attrs old :
  querySelector "#app" d = Returns (Some p) d ->
  node_at p d = Some (Element "div" attrs old) ->
  exists d',
    bootstrap d = Returns tt d' /\
    node_at p d' = Some (Element "div" attrs injected_nodes) /\
    getAttribute "id" attrs = Some "app" /\
    sub_at [1; 1] (Element "div" attrs injected_nodes) =
      Some (Element "h1" [] [Text "Poland in Numbers"]) /\
    (exists inside,
       sub_at [1] (Element "div" attrs injected_nodes) =
         Some (Element "header" [] inside)) /\
    sub_at [3; 1] (Element "div" attrs injected_nodes) =
      Some (Element "div" [("id", "visualizations")] []).
Proof.
  rewrite querySelector_app. intros [= Hm] Hat.
  exists (set_children p injected_nodes d). repeat split.
  - by eapply bootstrap_div_mounted.
  - by eapply node_at_set_children.
  - destruct (mount_sound d p Hm) as (tag & attrs' & kids & Hat' & Hid).
    congruence.
  - by eexists.
Qed.

Lemma bootstrap_fills_mount_witness :
  exists d',
    bootstrap Samples.page_with_mount = Returns tt d' /\
    node_at [0; 1; 1] d' =
      Some (Element "div" [("class", "root"); ("id", "app")] injected_nodes) /\
    getAttribute "id" [("class", "root"); ("id", "app")] = Some "app" /\
    sub_at [1; 1]
      (Element "div" [("class", "root"); ("id", "app")] injected_nodes) =
      Some (Element "h1" [] [Text "Poland in Numbers"]) /\
    (exists inside,
       sub_at [1]
         (Element "div" [("class", "root"); ("id", "app")] injected_nodes) =
         Some (Element "header" [] inside)) /\
    sub_at [3; 1]
      (Element "div" [("class", "root"); ("id", "app")] injected_nodes) =
      Some (Element "div" [("id", "visualizations")] []).
Proof.
  apply (bootstrap_fills_mount Samples.page_with_mount [0; 1; 1]
           [("class", "root"); ("id", "app")]
           [Element "span" [("id", "app")] [Text "old"]]); reflexivity.
Defined.

(** C1 as it stands fails where the mount element is not a div: on a page
    whose element with id "app" is a textarea the bootstrap returns and
    leaves the markup as the text of the textarea; the only element at or
    below the mount element is the mount element itself, so it holds no
    header and no container element. *)
Lemma textarea_mount_gets_text_only :
  node_at [0; 1; 0] Samples.page_with_textarea_mount =
    Some (Element "textarea" [("id", "app")] [Text "old"]) /\
  querySelector "#app" Samples.page_with_textarea_mount =
    Returns (Some [0; 1; 0]) Samples.page_with_textarea_mount /\
  exists d',
    bootstrap Samples.page_with_textarea_mount = Returns tt d' /\
    node_at [0; 1; 0] d' =
      Some (Element "textarea" [("id", "app")] [Text fragment]) /\
    forall r tag attrs kids,
      node_at ([0; 1; 0] ++ r) d' = Some (Element tag attrs kids) -> r = [].
Proof.
  split; [reflexivity|]. split; [reflexivity|].
  exists (set_children [0; 1; 0] [Text fragment]
            Samples.page_with_textarea_mount).
  split; [|split].
  - vm_compute. reflexivity.
  - reflexivity.
  - by intros [|[|i] [|j r]] tag attrs kids.
Qed.

(** C2: in a document that has no element with id "app", the lookup
    returns null and the bootstrap returns without throwing, leaving the
    document as it was. *)
Theorem bootstrap_without_mount (d : document) :
  (forall q tag attrs kids,
     node_at q d = Some (Element tag attrs kids) ->
     getAttribute "id" attrs <> Some "app") ->
  querySelector "#app" d = Returns None d /\
  bootstrap d = Returns tt d.
Proof.
  intros Hm%mount_None. rewrite querySelector_app, Hm.
  split; [done|]. by apply bootstrap_unmounted.
Qed.

Lemma bootstrap_without_mount_witness :
  querySelector "#app" Samples.page_without_mount =
    Returns None Samples.page_without_mount /\
  bootstrap Samples.page_without_mount = Returns tt Samples.page_without_mount.
Proof.
  apply (bootstrap_without_mount Samples.page_without_mount).
  apply mount_None. reflexivity.
Defined.




(** C4: the bootstrap is idempotent: a second run on the document the first
    run leaves returns that same document. *)
Theorem bootstrap_idempotent (d : document) :
  exists d', bootstrap d = Returns tt d' /\ bootstrap d' = Returns tt d'.
Proof.
  destruct (mount d) as [p|] eqn:Hm.
  - destruct (mount_sound d p Hm) as (tag & attrs & old & Hat & _).
    exists (set_children p (written_children tag old) d). split.
    + by eapply bootstrap_mounted.
    + rewrite (bootstrap_mounted _ p tag attrs (written_children tag old)).
      * by rewrite set_children_twice, written_children_twice.
      * by apply mount_set_children.
      * by eapply node_at_set_children.
  - exists d. split; by apply bootstrap_unmounted.
Qed.

(** C5: the bootstrap is total and never throws: on every document the
    lookup returns and the bootstrap returns, whether or not the mount
    element is present; no run ends in an exception. *)
Theorem bootstrap_total (d : document) :
  (exists app, querySelector "#app" d = Returns app d) /\
  (exists d', bootstrap d = Returns tt d') /\
  (forall e, bootstrap d <> Throws e).
Proof.
  split; [by exists (mount d)|].
  destruct (mount d) as [p|] eqn:Hm.
  - destruct (mount_sound d p Hm) as (tag & attrs & old & Hat & _).
    rewrite (bootstrap_mounted d p tag attrs old Hm Hat).
    split; [by eexists|done].
  - rewrite (bootstrap_unmounted d Hm). split; [by eexists|done].
Qed.

(** C6: the bootstrap writes at most once, to the mount element: the
    resulting document is the initial one, or the initial one with the
    children of the mount element replaced, the element keeping its tag and
    attributes; every node that is neither the mount element nor one of its
    descendants keeps its kind, data, tag, attributes and number of
    children, and keeps its whole subtree when it is not an ancestor of the
    mount element. *)
Theorem bootstrap_frame (d d' : document) (q : path) :
  bootstrap d = Returns tt d' ->
  within_mount d q = false ->
  (d' = d \/
   exists p tag attrs old new,
     mount d = Some p /\
     node_at p d = Some (Element tag attrs old) /\
     node_at p d' = Some (Element tag attrs new) /\
     d' = set_children p new d) /\
  shell <$> node_at q d' = shell <$> node_at q d /\
  (above_mount d q = false -> node_at q d' = node_at q d).
Proof.
  unfold within_mount, above_mount.
  destruct (mount d) as [p|] eqn:Hm.
  - destruct (mount_sound d p Hm) as (tag & attrs & old & Hat & _).
    rewrite (bootstrap_mounted d p tag attrs old Hm Hat).
    intros [= <-] Hpq. repeat split.
    + right. exists p, tag, attrs, old, (written_children tag old).
      repeat split; try done. by eapply node_at_set_children.
    + by apply shell_node_at_set_children.
    + intros Hqp. by apply node_at_set_children_apart.
  - rewrite (bootstrap_unmounted d Hm). intros [= <-] _. repeat split.
    by left.
Qed.

Lemma bootstrap_frame_witness :
  exists d',
    bootstrap Samples.page_with_mount = Returns tt d' /\
    shell <$> node_at [0; 1] d' =
      shell <$> node_at [0; 1] Samples.page_with_mount /\
    node_at [0; 1; 2] d' = node_at [0; 1; 2] Samples.page_with_mount.
Proof.
  exists Samples.page_after_bootstrap.
  split; [apply Examples.bootstrap_on_page_with_mount|]. split.
  - apply (bootstrap_frame Samples.page_with_mount _ [0; 1]);
      [apply Examples.bootstrap_on_page_with_mount|reflexivity].
  - apply (bootstrap_frame Samples.page_with_mount _ [0; 1; 2]);
      [apply Examples.bootstrap_on_page_with_mount|reflexivity..].
Defined.

(** C8: the configuration declares the jsdom test environment and sets the
    coverage thresholds for lines, functions, branches and statements to 80
    each. *)
Theorem test_configuration :
  let t := Config.test Config.vite_config in
  let th := Config.thresholds (Config.coverage t) in
  Config.environment t = "jsdom" /\
  Config.lines th = 80 /\
  Config.functions th = 80 /\
  Config.branches th = 80 /\
  Config.statements th = 80.
Proof. repeat split. Qed.

(** C9: the mount element is looked up with the ID selector for "app": the
    element found has that id and is the element written to, which leaves it
    with its tag, its attributes and the children the assignment gives an
    element of its tag (for a div, the nodes of the template); it comes
    first in tree order among the elements that have the id, and any other
    such element is either inside the mount element or is left as it
    was. *)
Theorem mount_is_first_app (d : document) (p : path) :
  querySelector "#app" d = Returns (Some p) d ->
  parse_selector "#app" = Valid (IdSelector "app") /\
  (exists tag attrs old d',
     node_at p d = Some (Element tag attrs old) /\
     getAttribute "id" attrs = Some "app" /\
     bootstrap d = Returns tt d' /\
     node_at p d' = Some (Element tag attrs (written_children tag old)) /\
     (tag = "div" -> node_at p d' = Some (Element tag attrs injected_nodes)) /\
     forall q qtag qattrs qkids,
       node_at q d = Some (Element qtag qattrs qkids) ->
       getAttribute "id" qattrs = Some "app" ->
       tree_order_le p q = true /\
       (q <> p ->
        is_prefix p q = true \/
        node_at q d' = Some (Element qtag qattrs qkids))).
Proof.
  rewrite querySelector_app. intros [= Hm]. split; [done|].
  destruct (mount_sound d p Hm) as (tag & attrs & old & Hat & Hid).
  exists tag, attrs, old, (set_children p (written_children tag old) d).
  pose proof (node_at_set_children p (written_children tag old) d _ _ _ Hat)
    as Hafter.
  repeat split; try done.
  - by eapply bootstrap_mounted.
  - intros ->. by rewrite <- (written_children_div old).
  - eapply (search_document_first _ d p Hm); [done|].
    by apply selects_app.
  - intros Hne.
    assert (tree_order_le p q = true) as Hle.
    { eapply (search_document_first _ d p Hm); [done|].
      by apply selects_app. }
    destruct (is_prefix p q) eqn:Hpq; [by left|right].
    rewrite node_at_set_children_apart; try done.
    destruct (is_prefix q p) eqn:Hqp; [|done].
    apply is_prefix_tree_order in Hqp.
    by destruct Hne; apply tree_order_le_antisym.
Qed.

Lemma mount_is_first_app_witness :
  parse_selector "#app" = Valid (IdSelector "app") /\
  (exists tag attrs old d',
     node_at [0; 1; 1] Samples.page_with_mount =
       Some (Element tag attrs old) /\
     getAttribute "id" attrs = Some "app" /\
     bootstrap Samples.page_with_mount = Returns tt d' /\
     node_at [0; 1; 1] d' =
       Some (Element tag attrs (written_children tag old)) /\
     (tag = "div" ->
      node_at [0; 1; 1] d' = Some (Element tag attrs injected_nodes)) /\
     forall q qtag qattrs qkids,
       node_at q Samples.page_with_mount =
         Some (Element qtag qattrs qkids) ->
       getAttribute "id" qattrs = Some "app" ->
       tree_order_le [0; 1; 1] q = true /\
       (q <> [0; 1; 1] ->
        is_prefix [0; 1; 1] q = true \/
        node_at q d' = Some (Element qtag qattrs qkids))).
Proof.
  apply (mount_is_first_app Samples.page_with_mount [0; 1; 1]). reflexivity.
Defined.

(** C10: the template literal parses to a header element holding an h1 with
    the text "Poland in Numbers" and a p with the text "D3.js Data
    Visualization App", followed by a main element holding a div with id
    "visualizations" that has no children; between the elements there is
    only the white space of the template's layout. *)
Theorem injected_fragment_structure :
  parse_fragment fragment = Some injected_nodes /\
  elements_of_all elements_of injected_nodes =
    [Element "header" []
       [Element "h1" [] [Text "Poland in Numbers"];
        Element "p" [] [Text "D3.js Data Visualization App"]];
     Element "main" []
       [Element "div" [("id", "visualizations")] []]].
Proof. split; [apply parse_fragment_fragment|reflexivity]. Qed.

(** ** Facts about the guide's helpers *)

Module GuideFacts.

Lemma node_ids_spec (ns : list Guide.network_node) (s : string) :
  s ∈ (list_to_set (map Guide.id ns) : gset string) <->
  exists n, n ∈ ns /\ Guide.id n = s.
Proof.
  rewrite elem_of_list_to_set. change (map Guide.id ns) with (Guide.id <$> ns).
  rewrite list_elem_of_fmap. split.
  - intros (n & -> & Hn). by exists n.
  - intros (n & Hn & <-). by exists n.
Qed.

Lemma validateNetwork_spec (ns : list Guide.network_node)
    (es : list Guide.network_edge) :
  Guide.validateNetwork (Guide.MkNetwork ns es) = true <->
  forall e, e ∈ es ->
    (exists n, n ∈ ns /\ Guide.id n = Guide.source e) /\
    (exists n, n ∈ ns /\ Guide.id n = Guide.target e).
Proof.
  unfold Guide.validateNetwork. simpl. rewrite forallb_forall. split.
  - intros Hall e He%list_elem_of_In. specialize (Hall e He).
    apply andb_prop in Hall as [Hs%bool_decide_eq_true Ht%bool_decide_eq_true].
    by rewrite <- !node_ids_spec.
  - intros Hall e He%list_elem_of_In. destruct (Hall e He) as [Hs Ht].
    apply andb_true_intro.
    split; apply bool_decide_eq_true; by apply node_ids_spec.
Qed.

End GuideFacts.

(** ** Further properties of the bootstrap *)

(** X1: a lookup of "#app" after the run returns what it returned before
    the run: the same reference, or null. *)
Theorem lookup_survives_bootstrap (d d' : document) :
  bootstrap d = Returns tt d' ->
  exists app,
    querySelector "#app" d = Returns app d /\
    querySelector "#app" d' = Returns app d'.
Proof.
  intros Hrun. exists (mount d). rewrite !querySelector_app.
  split; [done|]. f_equal.
  destruct (mount d) as [p|] eqn:Hm.
  - destruct (mount_sound d p Hm) as (tag & attrs & old & Hat & _).
    rewrite (bootstrap_mounted d p tag attrs old Hm Hat) in Hrun.
    injection Hrun as <-. by apply mount_set_children.
  - rewrite (bootstrap_unmounted d Hm) in Hrun. injection Hrun as <-. done.
Qed.

Lemma lookup_survives_bootstrap_witness :
  exists app,
    querySelector "#app" Samples.page_with_mount =
      Returns app Samples.page_with_mount /\
    querySelector "#app" Samples.page_after_bootstrap =
      Returns app Samples.page_after_bootstrap.
Proof.
  apply (lookup_survives_bootstrap Samples.page_with_mount
           Samples.page_after_bootstrap).
  apply Examples.bootstrap_on_page_with_mount.
Defined.

(** X2: the run changes nothing but the children of the mount element:
    putting the earlier children back into the resulting document gives the
    initial document. *)
Theorem restoring_children_undoes_bootstrap (d d' : document) (p : path)
    tag attrs old :
  querySelector "#app" d = Returns (Some p) d ->
  node_at p d = Some (Element tag attrs old) ->
  bootstrap d = Returns tt d' ->
  set_children p old d' = d.
Proof.
  rewrite querySelector_app. intros [= Hm] Hat.
  rewrite (bootstrap_mounted d p tag attrs old Hm Hat). intros [= <-].
  rewrite set_children_twice. by eapply set_children_same.
Qed.

Lemma restoring_children_undoes_bootstrap_witness :
  set_children [0; 1; 1] [Element "span" [("id", "app")] [Text "old"]]
    Samples.page_after_bootstrap = Samples.page_with_mount.
Proof.
  apply (restoring_children_undoes_bootstrap Samples.page_with_mount
           Samples.page_after_bootstrap [0; 1; 1] "div"
           [("class", "root"); ("id", "app")]);
    [reflexivity|reflexivity|apply Examples.bootstrap_on_page_with_mount].
Defined.

(** X3: the run creates no element with id "app": an element that has
    the id afterwards was an element of the initial document, at the same
    place and with the same tag and attributes. *)
Theorem bootstrap_adds_no_mount (d d' : document) (q : path)
    tag attrs kids :
  bootstrap d = Returns tt d' ->
  node_at q d' = Some (Element tag attrs kids) ->
  getAttribute "id" attrs = Some "app" ->
  exists kids0, node_at q d = Some (Element tag attrs kids0).
Proof.
  destruct (mount d) as [p|] eqn:Hm.
  - destruct (mount_sound d p Hm) as (mtag & mattrs & mkids & Hat & _).
    rewrite (bootstrap_mounted d p mtag mattrs mkids Hm Hat).
    intros [= <-] Hq Hid.
    destruct (is_prefix p q) eqn:Hpq.
    + apply is_prefix_split in Hpq as [r ->].
      destruct r as [|i r].
      * rewrite app_nil_r in *.
        rewrite (node_at_set_children p _ d _ _ _ Hat) in Hq.
        injection Hq as <- <- _. by exists mkids.
      * assert (context_of mtag = TemplateContents \/
                context_of mtag <> TemplateContents) as [Htpl|Hctx]
          by (destruct (context_of mtag); first [by left|by right]).
        -- assert (written_children mtag mkids = mkids) as Hsame
             by (unfold written_children; by rewrite Htpl).
           rewrite Hsame, (set_children_same p d _ _ _ Hat) in Hq.
           by exists kids.
        -- rewrite (node_at_below_mount d p (i :: r) _ _ _ Hm) in Hq by done.
           by destruct (written_children_no_mount _ _ _ _ _ _ Hctx Hq).
    + eapply shell_element; [|exact Hq].
      by apply shell_node_at_set_children.
  - rewrite (bootstrap_unmounted d Hm). intros [= <-] Hq _. by exists kids.
Qed.

Lemma bootstrap_adds_no_mount_witness :
  exists kids0,
    node_at [0; 1; 2] Samples.page_with_mount =
      Some (Element "div" [("id", "app")] kids0).
Proof.
  apply (bootstrap_adds_no_mount Samples.page_with_mount
           Samples.page_after_bootstrap [0; 1; 2] "div" [("id", "app")]
           [Text "second"]);
    [apply Examples.bootstrap_on_page_with_mount|reflexivity|reflexivity].
Defined.

(** X4: once the run has filled a mount element that is a div, the
    container is there to be looked up: "#visualizations" finds an element
    at or before the template's container, and it finds exactly that
    container, a div without children, when every element of the initial
    document that had the id was inside the mount element. *)
Theorem container_can_be_looked_up (d d' : document) (p : path) attrs old :
  querySelector "#app" d = Returns (Some p) d ->
  node_at p d = Some (Element "div" attrs old) ->
  bootstrap d = Returns tt d' ->
  node_at (p ++ [3; 1]) d' =
    Some (Element "div" [("id", "visualizations")] []) /\
  (exists q,
     querySelector "#visualizations" d' = Returns (Some q) d' /\
     tree_order_le q (p ++ [3; 1]) = true) /\
  ((forall r tag rattrs kids,
      node_at r d = Some (Element tag rattrs kids) ->
      getAttribute "id" rattrs = Some "visualizations" ->
      is_prefix p r = true) ->
   querySelector "#visualizations" d' = Returns (Some (p ++ [3; 1])) d').
Proof.
  rewrite querySelector_app. intros [= Hm] Hp.
  rewrite (bootstrap_div_mounted d p attrs old Hm Hp). intros [= <-].
  assert (forall r, r <> [] ->
            node_at (p ++ r) (set_children p injected_nodes d) =
            node_at r injected_nodes) as Hbelow.
  { intros r Hr. rewrite <- (written_children_div old).
    by eapply node_at_below_mount. }
  set (d' := set_children p injected_nodes d) in *.
  set (vis := selects (IdSelector "visualizations")).
  assert (node_at (p ++ [3; 1]) d' =
          Some (Element "div" [("id", "visualizations")] [])) as Hdiv.
  { by rewrite Hbelow. }
  assert (forall s, querySelector "#visualizations" s =
                    Returns (search_document vis s) s) as Hquery by done.
  destruct (search_document_finds vis d' _ _ _ _ Hdiv eq_refl) as [q Hq].
  assert (tree_order_le q (p ++ [3; 1]) = true) as Hle.
  { by eapply (search_document_first vis d' q Hq). }
  split; [done|]. split.
  - exists q. by rewrite Hquery, Hq.
  - intros Hinside. rewrite Hquery, Hq. do 2 f_equal.
    destruct (search_document_sound vis d' q Hq)
      as (tag & rattrs & kids & Hat & Hvis).
    destruct (is_prefix p q) eqn:Hpq.
    + apply is_prefix_split in Hpq as [r ->].
      destruct r as [|i r].
      * rewrite app_nil_r in Hat.
        destruct (mount_sound d p Hm) as (mtag & mattrs & mkids & Hp' & Hid).
        unfold d' in Hat.
        rewrite (node_at_set_children p injected_nodes d _ _ _ Hp') in Hat.
        injection Hat as <- <- _.
        apply (selects_id "visualizations") in Hvis; [|done]. congruence.
      * f_equal. rewrite Hbelow in Hat by done.
        rewrite tree_order_le_app in Hle.
        apply tree_order_le_antisym; [done|].
        by eapply (search_document_first vis _ _ template_container).
    + destruct (shell_element (node_at q d) (node_at q d') tag rattrs kids)
        as [kids0 Hq0]; [by apply shell_node_at_set_children|done|].
      apply (selects_id "visualizations") in Hvis; [|done].
      by rewrite (Hinside q tag rattrs kids0 Hq0 Hvis) in Hpq.
Qed.

Lemma container_can_be_looked_up_witness :
  querySelector "#visualizations" Samples.page_after_bootstrap =
  Returns (Some ([0; 1; 1] ++ [3; 1])) Samples.page_after_bootstrap.
Proof.
  apply (container_can_be_looked_up Samples.page_with_mount
           Samples.page_after_bootstrap [0; 1; 1]
           [("class", "root"); ("id", "app")]
           [Element "span" [("id", "app")] [Text "old"]]);
    [reflexivity|reflexivity|apply Examples.bootstrap_on_page_with_mount|].
  intros r tag rattrs kids Hr Hid.
  apply (selects_id "visualizations" tag rattrs kids) in Hid; [|done].
  assert (search_document (selects (IdSelector "visualizations"))
            Samples.page_with_mount = None) as Hnone by reflexivity.
  by rewrite (search_document_None _ _ Hnone _ _ _ _ Hr) in Hid.
Defined.

(** ** Properties of the guide's helpers *)

(** X5: [isValidCoordinate] accepts exactly the pairs of finite numbers
    with the longitude in [-180, 180] and the latitude in [-90, 90], the
    bounds included; a pair with a NaN or an infinite component is
    rejected. *)
Theorem isValidCoordinate_iff (lon lat : Guide.number) :
  Guide.isValidCoordinate (lon, lat) = true <->
  exists x y,
    lon = Guide.Finite x /\ lat = Guide.Finite y /\
    (inject_Z (-180) <= x)%Q /\ (x <= inject_Z 180)%Q /\
    (inject_Z (-90) <= y)%Q /\ (y <= inject_Z 90)%Q.
Proof.
  unfold Guide.isValidCoordinate, Guide.number_ge, Guide.of_Z.
  rewrite !andb_true_iff. split.
  - intros [[[H1 H2] H3] H4].
    destruct lon as [| |x|], lat as [| |y|]; simpl in *; try done.
    exists x, y. by rewrite <- !Qle_bool_iff.
  - intros (x & y & -> & -> & H1 & H2 & H3 & H4). simpl.
    by rewrite !Qle_bool_iff.
Qed.

(** X6: [validateNetwork] holds exactly when every edge has a node whose id
    is the edge's source and a node whose id is its target. *)
Theorem validateNetwork_iff (data : Guide.NetworkData) :
  Guide.validateNetwork data = true <->
  forall e, e ∈ Guide.edges data ->
    (exists n, n ∈ Guide.nodes data /\ Guide.id n = Guide.source e) /\
    (exists n, n ∈ Guide.nodes data /\ Guide.id n = Guide.target e).
Proof. destruct data as [ns es]. apply GuideFacts.validateNetwork_spec. Qed.

(** X7: a valid network stays valid when its nodes are replaced by any
    nodes that offer at least the same ids: adding nodes, reordering them,
    relabelling them or dropping a duplicate id does not invalidate it. *)
Theorem validateNetwork_more_nodes (ns ns' : list Guide.network_node)
    (es : list Guide.network_edge) :
  Guide.validateNetwork (Guide.MkNetwork ns es) = true ->
  (forall n, n ∈ ns -> exists n', n' ∈ ns' /\ Guide.id n' = Guide.id n) ->
  Guide.validateNetwork (Guide.MkNetwork ns' es) = true.
Proof.
  rewrite !GuideFacts.validateNetwork_spec. intros Hvalid Hids e He.
  destruct (Hvalid e He) as [(n1 & Hn1 & Hs) (n2 & Hn2 & Ht)].
  destruct (Hids n1 Hn1) as (m1 & Hm1 & Hid1).
  destruct (Hids n2 Hn2) as (m2 & Hm2 & Hid2).
  split; [exists m1|exists m2]; split; [done|congruence|done|congruence].
Qed.

Lemma validateNetwork_more_nodes_witness :
  Guide.validateNetwork
    (Guide.MkNetwork
       [Guide.MkNode "gdn" "Gdansk" None; Guide.MkNode "krk" "Krakow" None;
        Guide.MkNode "waw" "Warsaw" None; Guide.MkNode "poz" "Poznan" None]
       (Guide.edges Guide.sample_network)) = true.
Proof.
  apply (validateNetwork_more_nodes (Guide.nodes Guide.sample_network)).
  - vm_compute. reflexivity.
  - intros n Hn. simpl in Hn.
    apply elem_of_cons in Hn as [->|Hn];
      [exists (Guide.MkNode "waw" "Warsaw" None);
       split; [repeat constructor|reflexivity]|].
    apply elem_of_cons in Hn as [->|Hn];
      [exists (Guide.MkNode "krk" "Krakow" None);
       split; [repeat constructor|reflexivity]|].
    apply elem_of_cons in Hn as [->|Hn];
      [exists (Guide.MkNode "gdn" "Gdansk" None);
       split; [repeat constructor|reflexivity]|].
    apply elem_of_cons in Hn as [->|Hn];
      [exists (Guide.MkNode "krk" "Krakow" None);
       split; [repeat constructor|reflexivity]|].
    by apply elem_of_nil in Hn.
Defined.

(** X8: the edges are checked one by one: a network whose edges are two
    lists put together is valid exactly when it is valid with each of the
    two lists. *)
Theorem validateNetwork_edges_app (ns : list Guide.network_node)
    (es1 es2 : list Guide.network_edge) :
  Guide.validateNetwork (Guide.MkNetwork ns (es1 ++ es2)) =
  Guide.validateNetwork (Guide.MkNetwork ns es1)
  && Guide.validateNetwork (Guide.MkNetwork ns es2).
Proof. unfold Guide.validateNetwork. simpl. apply forallb_app. Qed.

